(** * sendtx-p2p: a shallow embedding of src/src/sendtx-p2p.cpp

    The command broadcasts one transaction to every peer channel the
    protocol service hands out, polls the connection count, and stops on a
    process-wide [stopped] flag.  Callbacks are modelled as functions on an
    explicit state; the asynchronous world (protocol service, thread pool,
    signals) delivers them as [event]s. *)

From Stdlib Require Import String Ascii List NArith ZArith Bool Lia.
Import ListNotations.

Local Open Scope string_scope.

(* ------------------------------------------------------------------ *)
(** ** Logging sinks (lines 36-64, 125-155) *)

Module Logging.

Inductive log_level := debug | info | warning | error | fatal.

(** libbitcoin's [level_repr]. *)
Definition level_repr (level : log_level) : string :=
  match level with
  | debug => "DEBUG"
  | info => "INFO"
  | warning => "WARNING"
  | error => "ERROR"
  | fatal => "FATAL"
  end.

(** [std::endl]: a newline (and a flush). *)
Definition endl : string := String (ascii_of_nat 10) EmptyString.

(** An output stream is the text written to it so far. *)
Definition ostream := string.

(** [output_to_file]: writes to [file]. *)
Definition output_to_file (file : ostream) (level : log_level)
    (domain body : string) : ostream :=
  if String.eqb body "" then file
  else
    let file := file ++ level_repr level in
    let file := if negb (String.eqb domain "")
                then file ++ " [" ++ domain ++ "]" else file in
    file ++ ": " ++ body ++ endl.

(** [output_cerr_and_file]: builds the line in an [ostringstream] and
    writes it to [std::cerr]; the [file] argument is never written.
    Returns the (file, cerr) pair after the call. *)
Definition output_cerr_and_file (file cerr : ostream) (level : log_level)
    (domain body : string) : ostream * ostream :=
  if String.eqb body "" then (file, cerr)
  else
    let output := level_repr level in
    let output := if negb (String.eqb domain "")
                  then output ++ " [" ++ domain ++ "]" else output in
    let output := output ++ ": " ++ body in
    (file, cerr ++ output ++ endl).

(** The line format of the spec, [<LEVEL>[ <domain>]: <message>]. *)
Definition spec_log_line (level : log_level) (domain body : string) : string :=
  level_repr level
  ++ (if String.eqb domain "" then "" else " [" ++ domain ++ "]")
  ++ ": " ++ body.

(** The output function installed on one severity channel.  [default_sink]
    is whatever libbitcoin installed before [bind_logging]; [file_sink p]
    is [output_to_file] and [cerr_and_file_sink p] is
    [output_cerr_and_file], each bound to the stream opened on [p]. *)
Inductive sink :=
| default_sink
| file_sink (path : string)
| cerr_and_file_sink (path : string).

Record log_config := mk_log_config {
  debug_out : sink;
  info_out : sink;
  warning_out : sink;
  error_out : sink;
  fatal_out : sink }.

Definition default_config : log_config :=
  mk_log_config default_sink default_sink default_sink default_sink default_sink.

Definition sink_of (c : log_config) (level : log_level) : sink :=
  match level with
  | debug => debug_out c
  | info => info_out c
  | warning => warning_out c
  | error => error_out c
  | fatal => fatal_out c
  end.

(** [bind_logging debug error]: a boost path is empty iff its string is.
    For a non-empty path the code opens a block-local [std::ofstream] on
    [generic_string()] of the path (truncating the file) and binds a
    [std::ref] to it; the stream is destroyed when its if-block ends.  So
    [file_sink p] and [cerr_and_file_sink p] stand for an output function
    bound to a destroyed stream that had been opened on [p]; [emit] gives
    their meaning. *)
Definition bind_logging (debug_path error_path : string) (c : log_config)
    : log_config :=
  let c :=
    if negb (String.eqb debug_path "") then
      {| debug_out := file_sink debug_path;
         info_out := file_sink debug_path;
         warning_out := warning_out c;
         error_out := error_out c;
         fatal_out := fatal_out c |}
    else c in
  if negb (String.eqb error_path "") then
    {| debug_out := debug_out c;
       info_out := info_out c;
       warning_out := file_sink error_path;
       error_out := cerr_and_file_sink error_path;
       fatal_out := cerr_and_file_sink error_path |}
  else c.

(** The outside world the sinks write to: named files and [std::cerr]. *)
Record world := mk_world {
  files : list (string * ostream);
  cerr : ostream }.

Definition file_contents (w : world) (path : string) : ostream :=
  match find (fun e => String.eqb (fst e) path) (files w) with
  | Some (_, text) => text
  | None => ""
  end.

Definition set_file (w : world) (path : string) (text : ostream) : world :=
  mk_world ((path, text) :: filter (fun e => negb (String.eqb (fst e) path)) (files w))
           (cerr w).

(** One message logged at [level].  [None] where nothing is modelled: the
    channel still has libbitcoin's default output function, or it runs
    [output_to_file], whose [file] is a [std::ref] to [bind_logging]'s
    block-local [ofstream], destroyed when that block ended, so writing it
    is undefined behaviour.  [output_cerr_and_file] receives the same
    dangling reference but never uses it, so that path is defined. *)
Definition emit (c : log_config) (level : log_level) (domain body : string)
    (w : world) : option world :=
  match sink_of c level with
  | default_sink => None
  | file_sink _ => None
  | cerr_and_file_sink p =>
      let '(f, e) := output_cerr_and_file (file_contents w p) (cerr w) level domain body in
      Some (mk_world (files (set_file w p f)) e)
  end.

Definition empty_world : world := mk_world [] "".

End Logging.

(* ------------------------------------------------------------------ *)
(** ** The broadcaster (lines 34, 66-123, 157-205) *)

Module Sendtx.

Import Logging.

Local Open Scope list_scope.

(** [size_t] values as [N], with the wrap-around of unsigned 64-bit
    arithmetic written out where the source multiplies. *)
Definition size_t := N.
Definition size_t_modulus : N := 2 ^ 64.
Definition size_t_mul (a b : size_t) : size_t := N.modulo (a * b) size_t_modulus.

Definition transaction_type := string.
Definition channel_ptr := nat.

(** [std::error_code]: [None] is success, [Some message] an error. *)
Definition error_code := option string.

Definition is_error (e : error_code) : bool :=
  match e with Some _ => true | None => false end.

Definition SIGINT : Z := 2.
Definition SIGABRT : Z := 6.
Definition SIGTERM : Z := 15.

(** Calls the program makes on the protocol service and on channels. *)
Inductive action :=
| set_max_outbound (n : size_t)
| start
| subscribe_channel (tx : transaction_type)
| send (node : channel_ptr) (tx : transaction_type)
| fetch_connection_count
| install_signal (sig : Z)
| stop.

(** Messages written through [log_xxx()] and to [std::cout]. *)
Inductive log_msg :=
| caught_signal (sig : Z)
| start_failed (message : string)
| started
| check_failed (message : string)
| connections (count : size_t)
| setup_failed (message : string)
| send_failed (message : string).

Inductive out_msg :=
| sending (tx : transaction_type)   (* "Sending " << hash_transaction(tx) *)
| sent.                             (* "Sent " << now() *)

Record state := mk_state {
  stopped : bool;                       (* static bool stopped *)
  calls : list action;                  (* calls made, in program order *)
  pending : list transaction_type;      (* armed channel subscriptions, each
                                           with the tx bound into send_tx *)
  logs : list (log_level * log_msg);
  outs : list out_msg }.

Definition initial_state : state := mk_state false [] [] [] [].

Definition set_stopped (s : state) : state :=
  mk_state true (calls s) (pending s) (logs s) (outs s).

Definition log_write (level : log_level) (m : log_msg) (s : state) : state :=
  mk_state (stopped s) (calls s) (pending s) (logs s ++ [(level, m)]) (outs s).

Definition cout (m : out_msg) (s : state) : state :=
  mk_state (stopped s) (calls s) (pending s) (logs s) (outs s ++ [m]).

(** A call on the protocol service; [subscribe_channel] also arms a
    one-shot subscription. *)
Definition call (a : action) (s : state) : state :=
  let pend := match a with
              | subscribe_channel tx => pending s ++ [tx]
              | _ => pending s
              end in
  mk_state (stopped s) (calls s ++ [a]) pend (logs s) (outs s).

(** [signal_handler] (lines 66-70). *)
Definition signal_handler (signal : Z) (s : state) : state :=
  set_stopped (log_write info (caught_signal signal) s).

(** [handle_start] (lines 73-83). *)
Definition handle_start (err : error_code) (s : state) : state :=
  match err with
  | Some m => set_stopped (log_write warning (start_failed m) s)
  | None => log_write debug started s
  end.

(** [check_connection_count] (lines 87-97). *)
Definition check_connection_count (err : error_code)
    (connection_count node_count : size_t) (s : state) : state :=
  let s := match err with
           | Some m => log_write warning (check_failed m) s
           | None => log_write debug (connections connection_count) s
           end in
  if is_error err || N.leb node_count connection_count then set_stopped s else s.

(** The [handle_send] lambda (lines 112-118). *)
Definition handle_send (err : error_code) (s : state) : state :=
  match err with
  | Some m => log_write warning (send_failed m) s
  | None => cout sent s
  end.

(** [send_tx] (lines 100-123).  [node->send(tx, handle_send)] issues the
    send; its completion arrives later as an [ev_send] event.  [tx] is the
    transaction value the handler reads; this model does not track whether
    the object it reads through is still alive.  [Binding] tracks that
    (lines 121-122 bind a reference, line 187 a copy) and agrees with this
    model until the first read of a destroyed copy ([bstep_agrees]). *)
Definition send_tx (err : error_code) (node : channel_ptr)
    (tx : transaction_type) (s : state) : state :=
  match err with
  | Some m => set_stopped (log_write warning (setup_failed m) s)
  | None =>
      let s := cout (sending tx) s in
      let s := call (send node tx) s in
      call (subscribe_channel tx) s
  end.

(** [ignore_stop] (line 202). *)
Definition ignore_stop (err : error_code) (s : state) : state := s.

(** [work] (lines 195-199). *)
Definition work (s : state) : state := call fetch_connection_count s.

(** Channel delivery by the protocol service, after its contract (spec
    4.1): the next channel fires every armed one-shot subscription once and
    consumes it; a handler may arm a new one. *)
Definition deliver_channel (err : error_code) (node : channel_ptr)
    (s : state) : state :=
  fold_left (fun s tx => send_tx err node tx s) (pending s)
            (mk_state (stopped s) (calls s) [] (logs s) (outs s)).

(** Everything that can run asynchronously while [invoke] polls. *)
Inductive event :=
| ev_signal (sig : Z)
| ev_start (err : error_code)
| ev_channel (err : error_code) (node : channel_ptr)
| ev_send (err : error_code)
| ev_count (err : error_code) (connection_count : size_t)
| ev_stop (err : error_code)
| ev_work.

(** One event; [node_count] is the value bound into [work]. *)
Definition step (node_count : size_t) (s : state) (e : event) : state :=
  match e with
  | ev_signal sig => signal_handler sig s
  | ev_start err => handle_start err s
  | ev_channel err node => deliver_channel err node s
  | ev_send err => handle_send err s
  | ev_count err c => check_connection_count err c node_count s
  | ev_stop err => ignore_stop err s
  | ev_work => work s
  end.

Definition run (node_count : size_t) (es : list event) (s : state) : state :=
  fold_left (step node_count) es s.

(** [transactions.front()]: undefined on an empty vector ([None]). *)
Definition front (transactions : list transaction_type) : option transaction_type :=
  hd_error transactions.

(** The calls [invoke] makes on lines 182-192, with [tx] the front. *)
Definition invoke_calls (tx : transaction_type) (node_count : size_t) : list action :=
  [ set_max_outbound (size_t_mul node_count 6%N);
    start;
    subscribe_channel tx;
    install_signal SIGABRT;
    install_signal SIGTERM;
    install_signal SIGINT ].

Definition exec (acts : list action) (s : state) : state :=
  fold_left (fun s a => call a s) acts s.

(** Lines 160-192 of [invoke], up to [client.poll].  [bind_logging] is
    modelled in [Logging]; it changes none of these components. *)
Definition invoke_setup (transactions : list transaction_type)
    (node_count : size_t) (s : state) : option state :=
  match front transactions with
  | None => None
  | Some tx => Some (exec (invoke_calls tx node_count) s)
  end.

(** The start completion handler fires on a pool thread, at any point after
    [prot.start]: here after the first [k] of the setup calls. *)
Definition invoke_setup_start_at (k : nat) (err : error_code)
    (tx : transaction_type) (node_count : size_t) (s : state) : state :=
  let acts := invoke_calls tx node_count in
  exec (skipn k acts) (handle_start err (exec (firstn k acts) s)).

(** Modelled from the spec: [async_client::poll(stopped, 2000, work)]
    (sx's async_client, not in src/): while the Stop Flag is false, issue
    [work] and wait two seconds, during which the events [env cycle]
    arrive.  [fuel] bounds the number of cycles. *)
Fixpoint poll (fuel : nat) (node_count : size_t) (env : nat -> list event)
    (cycle : nat) (s : state) : option state :=
  match fuel with
  | O => None
  | S fuel' =>
      if stopped s then Some s
      else poll fuel' node_count env (S cycle) (run node_count (env cycle) (work s))
  end.

Inductive console_result := okay | failure | invalid.

Inductive outcome :=
| undefined_behaviour
| no_return
| returned (s : state) (r : console_result).

(** [sendtx_p2p::invoke] (lines 157-205). *)
Definition invoke (transactions : list transaction_type) (node_count : size_t)
    (env : nat -> list event) (fuel : nat) : outcome :=
  match invoke_setup transactions node_count initial_state with
  | None => undefined_behaviour
  | Some s =>
      match poll fuel node_count env 0 s with
      | None => no_return
      | Some s => returned (call stop s) okay
      end
  end.

End Sendtx.

(* ------------------------------------------------------------------ *)
(** ** How an armed subscription holds the transaction (lines 121-122, 187) *)

Module Binding.

Import Logging Sendtx.

Local Open Scope list_scope.

(** Line 187 binds [tx] by value: the handler object owns a copy.  Lines
    121-122 bind [std::ref(tx)], where [tx] is the [send_tx] parameter, a
    reference to the copy inside the handler being run. *)
Inductive bound_tx :=
| owned (tx : transaction_type)
| borrowed (tx : transaction_type).

Definition bound_value (b : bound_tx) : transaction_type :=
  match b with owned tx | borrowed tx => tx end.

(** [core] is the state of [Sendtx]; [armed] the armed subscriptions with
    how each holds its transaction; [undefined] records that the program
    has read a destroyed object, after which nothing is modelled. *)
Record bstate := mk_bstate {
  core : state;
  armed : list bound_tx;
  undefined : bool }.

(** [send_tx] run by the handler of one fired subscription.  The protocol
    service fires a subscription by calling the handler from a copy of its
    subscriber list, taken and cleared before relaying, and destroys that
    copy when the relay ends; a subscription armed during a relay fires
    only in a later one.  A [borrowed] reference points into the copy that ran
    the handler which armed it, so it is dangling whenever it fires, and
    [hash_transaction(tx)] on line 110 reads a destroyed object.  The error
    path (lines 103-108) does not touch [tx]. *)
Definition bsend_tx (err : error_code) (node : channel_ptr) (b : bound_tx)
    (bs : bstate) : bstate :=
  if undefined bs then bs
  else
    match err, b with
    | Some m, _ =>
        mk_bstate (send_tx (Some m) node (bound_value b) (core bs)) (armed bs) false
    | None, owned tx =>
        mk_bstate (send_tx None node tx (core bs)) (armed bs ++ [borrowed tx]) false
    | None, borrowed _ => mk_bstate (core bs) (armed bs) true
    end.

(** Channel delivery (spec 4.1): every armed subscription fires once and is
    consumed. *)
Definition bdeliver_channel (err : error_code) (node : channel_ptr)
    (bs : bstate) : bstate :=
  let c := core bs in
  fold_left (fun bs b => bsend_tx err node b bs) (armed bs)
            (mk_bstate (mk_state (stopped c) (calls c) [] (logs c) (outs c)) [] (undefined bs)).

(** One event; events other than channel deliveries do not touch the
    subscriptions and run as in [Sendtx]. *)
Definition bstep (node_count : size_t) (bs : bstate) (e : event) : bstate :=
  if undefined bs then bs
  else
    match e with
    | ev_channel err node => bdeliver_channel err node bs
    | _ => mk_bstate (step node_count (core bs) e) (armed bs) false
    end.

Definition brun (node_count : size_t) (es : list event) (bs : bstate) : bstate :=
  fold_left (bstep node_count) es bs.

(** The state [invoke] reaches on line 192: one subscription armed, owning
    a copy of the front transaction. *)
Definition binvoke_setup (tx : transaction_type) (node_count : size_t) : bstate :=
  mk_bstate (exec (invoke_calls tx node_count) initial_state) [owned tx] false.

End Binding.

(* ------------------------------------------------------------------ *)
(** ** The operations the spec lists as setting the Stop Flag *)

Module StopReasons.

Import Logging Sendtx.

Local Open Scope list_scope.

(** Spec 3: a termination signal, a connection-count check that errors or
    meets the target, a start failure, or a channel-setup failure (the
    latter only when a subscription is armed to receive the channel). *)
Definition sets_stop (node_count : size_t) (s : state) (e : event) : bool :=
  match e with
  | ev_signal _ => true
  | ev_start err => is_error err
  | ev_channel err _ =>
      is_error err && negb (match pending s with [] => true | _ => false end)
  | ev_count err c => is_error err || N.leb node_count c
  | ev_send _ | ev_stop _ | ev_work => false
  end.

(** A run used as a concrete input: start succeeds, one channel arrives
    and the first poll reports the target of one connection. *)
Definition sample_env (cycle : nat) : list event :=
  match cycle with
  | O => [ev_start None; ev_channel None 7; ev_count None 1%N]
  | _ => []
  end.

End StopReasons.

(* ------------------------------------------------------------------ *)
(** ** Counting sends and channel events *)

Module Counting.

Import Sendtx.

Local Open Scope list_scope.

(** The [send] calls among the calls made. *)
Definition sends_of (acts : list action) : list action :=
  filter (fun a => match a with send _ _ => true | _ => false end) acts.

End Counting.

(* ------------------------------------------------------------------ *)
(** ** Proofs *)

Import Logging Sendtx Binding StopReasons Counting.

Local Open Scope list_scope.

Lemma string_append_assoc (a b c : string) :
  ((a ++ b) ++ c)%string = (a ++ (b ++ c))%string.
Proof. induction a as [|x a IH]; simpl; [reflexivity | now rewrite IH]. Qed.

(** The components of [exec acts s]. *)
Fixpoint subscribed (acts : list action) : list transaction_type :=
  match acts with
  | [] => []
  | subscribe_channel tx :: acts => tx :: subscribed acts
  | _ :: acts => subscribed acts
  end.

Lemma exec_components (acts : list action) (s : state) :
  stopped (exec acts s) = stopped s /\
  calls (exec acts s) = calls s ++ acts /\
  pending (exec acts s) = pending s ++ subscribed acts /\
  logs (exec acts s) = logs s /\
  outs (exec acts s) = outs s.
Proof.
  revert s. induction acts as [|a acts IH]; intros s; simpl.
  - now rewrite !app_nil_r.
  - destruct (IH (call a s)) as (H1 & H2 & H3 & H4 & H5).
    rewrite H1, H2, H3, H4, H5. unfold call; simpl.
    rewrite <- !app_assoc. repeat split; try reflexivity.
    destruct a; simpl; rewrite <- ?app_assoc; reflexivity.
Qed.

Lemma subscribed_app (a b : list action) :
  subscribed (a ++ b) = subscribed a ++ subscribed b.
Proof.
  induction a as [|x a IH]; simpl; [reflexivity|].
  destruct x; simpl; rewrite ?IH; reflexivity.
Qed.

(** Handlers for one channel, folded over the armed subscriptions. *)
Lemma fold_send_tx_stopped (err : error_code) (node : channel_ptr)
    (l : list transaction_type) (s : state) :
  stopped (fold_left (fun s tx => send_tx err node tx s) l s)
  = stopped s || (is_error err && negb (match l with [] => true | _ => false end)).
Proof.
  revert s. induction l as [|tx l IH]; intros s; simpl.
  - now rewrite andb_false_r, orb_false_r.
  - rewrite IH. destruct err; simpl.
    + now rewrite orb_true_r.
    + now rewrite !orb_false_r.
Qed.

Lemma step_stopped (node_count : size_t) (s : state) (e : event) :
  stopped (step node_count s e) = stopped s || sets_stop node_count s e.
Proof.
  destruct e as [sig|err|err node|err|err c|err|]; simpl.
  - now rewrite orb_true_r.
  - destruct err; simpl; [now rewrite orb_true_r | now rewrite orb_false_r].
  - unfold deliver_channel. rewrite fold_send_tx_stopped. reflexivity.
  - destruct err; simpl; now rewrite orb_false_r.
  - unfold check_connection_count.
    destruct err; simpl; [now rewrite orb_true_r|].
    destruct (N.leb node_count c); simpl; [now rewrite orb_true_r | now rewrite orb_false_r].
  - now rewrite orb_false_r.
  - now rewrite orb_false_r.
Qed.

Lemma run_stopped_mono (node_count : size_t) (es : list event) (s : state) :
  implb (stopped s) (stopped (run node_count es s)) = true.
Proof.
  unfold run. revert s. induction es as [|e es IH]; intros s; simpl.
  - destruct (stopped s); reflexivity.
  - specialize (IH (step node_count s e)). rewrite step_stopped in IH.
    destruct (stopped s); simpl in *; [exact IH | destruct (stopped _); reflexivity].
Qed.

Lemma poll_stopped (fuel : nat) (node_count : size_t) (env : nat -> list event)
    (cycle : nat) (s s' : state) :
  poll fuel node_count env cycle s = Some s' -> stopped s' = true.
Proof.
  revert cycle s. induction fuel as [|fuel IH]; intros cycle s H; simpl in H.
  - discriminate.
  - destruct (stopped s) eqn:E.
    + injection H as <-. exact E.
    + exact (IH _ _ H).
Qed.

(** C9: both sinks suppress an empty body; otherwise the line written is
    [<LEVEL>[ <domain>]: <message>] followed by [std::endl] (to the file for
    [output_to_file], to [std::cerr] for [output_cerr_and_file]). *)
Theorem log_sink_format (file err_stream : Logging.ostream) (level : log_level)
    (domain body : string) :
  output_to_file file level domain body
  = (if String.eqb body "" then file
     else file ++ spec_log_line level domain body ++ endl)%string /\
  snd (output_cerr_and_file file err_stream level domain body)
  = (if String.eqb body "" then err_stream
     else err_stream ++ spec_log_line level domain body ++ endl)%string.
Proof.
  unfold output_to_file, output_cerr_and_file, spec_log_line.
  destruct (String.eqb body "") eqn:Hb; [split; reflexivity|].
  destruct (String.eqb domain "") eqn:Hd; cbn [negb snd];
    rewrite ?string_append_assoc; split; reflexivity.
Qed.

(** C3: the connection-count handler sets the Stop Flag exactly when the
    fetch failed or the count reached the target, and issues no new fetch
    (no retry); otherwise the flag is left as it was. *)
Theorem check_connection_count_stop (err : error_code)
    (connection_count node_count : size_t) (s : state) :
  stopped (check_connection_count err connection_count node_count s)
  = stopped s || (is_error err || N.leb node_count connection_count) /\
  calls (check_connection_count err connection_count node_count s) = calls s /\
  pending (check_connection_count err connection_count node_count s) = pending s /\
  (stopped s = false ->
   (stopped (check_connection_count err connection_count node_count s) = true <->
    err <> None \/ (node_count <= connection_count)%N)).
Proof.
  unfold check_connection_count.
  assert (Hs : forall s', stopped (if is_error err || N.leb node_count connection_count
                                   then set_stopped s' else s')
                          = stopped s' || (is_error err || N.leb node_count connection_count)).
  { intros s'. destruct (is_error err || N.leb node_count connection_count);
      simpl; [now rewrite orb_true_r | now rewrite orb_false_r]. }
  rewrite Hs.
  assert (Hlog : stopped (match err with
                          | Some m => log_write warning (check_failed m) s
                          | None => log_write debug (connections connection_count) s
                          end) = stopped s /\
                 calls (match err with
                        | Some m => log_write warning (check_failed m) s
                        | None => log_write debug (connections connection_count) s
                        end) = calls s /\
                 pending (match err with
                          | Some m => log_write warning (check_failed m) s
                          | None => log_write debug (connections connection_count) s
                          end) = pending s)
    by (destruct err; repeat split).
  destruct Hlog as (H1 & H2 & H3). rewrite H1.
  refine (conj eq_refl (conj _ (conj _ _))).
  - destruct (is_error err || N.leb node_count connection_count); exact H2.
  - destruct (is_error err || N.leb node_count connection_count); exact H3.
  - intros Hf. rewrite Hf. simpl. split.
    + intros Ht. destruct err as [m|]; [left; discriminate|right].
      simpl in Ht. now apply N.leb_le.
    + intros [Hne | Hle].
      * destruct err; [reflexivity | now contradiction Hne].
      * apply N.leb_le in Hle. rewrite Hle. apply orb_true_r.
Qed.

Lemma check_connection_count_stop_witness :
  stopped initial_state = false /\
  stopped (check_connection_count None 3%N 3%N initial_state) = true.
Proof.
  split; [reflexivity|].
  apply (proj2 (proj2 (proj2 (proj2 (check_connection_count_stop None 3%N 3%N initial_state))) eq_refl)).
  right. lia.
Defined.

(** C4: the Stop Flag starts false; no call of the program touches it;
    every event either leaves it unchanged or sets it to true, and sets it
    exactly in the cases of [sets_stop] (signal, start failure, channel
    setup failure, connection-count error or target reached); so along any
    run it is never reset. *)
Theorem stop_flag_set_only (node_count : size_t) :
  stopped initial_state = false /\
  (forall (a : action) (s : state), stopped (call a s) = stopped s) /\
  (forall (s : state) (e : event),
      stopped (step node_count s e) = stopped s || sets_stop node_count s e) /\
  (forall (es : list event) (s : state),
      implb (stopped s) (stopped (run node_count es s)) = true).
Proof.
  refine (conj eq_refl (conj _ (conj _ _))).
  - intros a s. reflexivity.
  - exact (step_stopped node_count).
  - exact (run_stopped_mono node_count).
Qed.

(** C8: the send-completion callback only logs: the Stop Flag, the calls
    made, the armed subscriptions are unchanged; only the log (on error)
    or the console output (on success) grow. *)
Theorem handle_send_only_logs (node_count : size_t) (err : error_code) (s : state) :
  let s' := step node_count s (ev_send err) in
  s' = mk_state (stopped s) (calls s) (pending s) (logs s') (outs s') /\
  logs s' = logs s ++ match err with
                      | Some m => [(warning, send_failed m)]
                      | None => []
                      end /\
  outs s' = outs s ++ match err with
                      | Some _ => []
                      | None => [sent]
                      end.
Proof.
  destruct err as [m|]; simpl; (split; [reflexivity | split]);
    rewrite ?app_nil_r; reflexivity.
Qed.

(** C7: whenever [invoke] returns, whatever set the Stop Flag, it has
    called [prot.stop] last, with a completion handler that changes
    nothing, and it returns [console_result::okay]. *)
Theorem invoke_returns_okay (transactions : list transaction_type)
    (node_count : size_t) (env : nat -> list event) (fuel : nat)
    (s : state) (r : console_result) :
  invoke transactions node_count env fuel = returned s r ->
  r = okay /\ stopped s = true /\
  (exists before, calls s = before ++ [stop]) /\
  (forall err, step node_count s (ev_stop err) = s).
Proof.
  unfold invoke. destruct (invoke_setup transactions node_count initial_state)
    as [s0|]; [|discriminate].
  destruct (poll fuel node_count env 0 s0) as [s1|] eqn:P; [|discriminate].
  intros H. injection H as <- <-.
  apply poll_stopped in P.
  split; [reflexivity|]. split; [exact P|]. split.
  - exists (calls s1). reflexivity.
  - intros err. reflexivity.
Qed.

Lemma invoke_returns_okay_witness :
  exists s, invoke ["tx"%string] 1%N sample_env 3 = returned s okay /\ stopped s = true.
Proof.
  eexists. split; [vm_compute; reflexivity|].
  refine (proj1 (proj2 (invoke_returns_okay ["tx"%string] 1%N sample_env 3 _ okay _))).
  vm_compute. reflexivity.
Defined.

(** C2 (as stated, refuted): when start fails right after [prot.start],
    the Stop Flag is set but a channel subscription is still armed. *)
Lemma start_failure_still_subscribes :
  let s := invoke_setup_start_at 2 (Some "refused"%string) "tx" 2%N initial_state in
  stopped s = true /\ In (subscribe_channel "tx") (calls s) /\ pending s = ["tx"%string].
Proof. vm_compute. split; [reflexivity|]. split; [right; right; left; reflexivity | reflexivity]. Qed.

Lemma handle_start_error (m : string) (s : state) :
  handle_start (Some m) s = mk_state true (calls s) (pending s)
                              (logs s ++ [(warning, start_failed m)]) (outs s).
Proof. reflexivity. Qed.

(** C2 (amended): whenever the start callback fails, wherever it fires
    among the setup calls of [invoke], the Stop Flag is set, the setup
    calls are exactly those of [invoke_calls], hence exactly one channel
    subscription is armed, and the failure path calls no [stop]. *)
Theorem start_failure_subscribes_once (k : nat) (m : string)
    (tx : transaction_type) (node_count : size_t) :
  let s := invoke_setup_start_at k (Some m) tx node_count initial_state in
  stopped s = true /\
  calls s = invoke_calls tx node_count /\
  pending s = [tx] /\
  ~ In stop (calls s).
Proof.
  unfold invoke_setup_start_at. cbv zeta.
  set (acts := invoke_calls tx node_count).
  set (s1 := exec (firstn k acts) initial_state).
  set (s2 := handle_start (Some m) s1).
  destruct (exec_components (firstn k acts) initial_state) as (A1 & A2 & A3 & _).
  destruct (exec_components (skipn k acts) s2) as (B1 & B2 & B3 & _).
  fold s1 in A2, A3.
  rewrite B1, B2, B3. unfold s2. rewrite handle_start_error. simpl.
  rewrite A2, A3. simpl.
  rewrite firstn_skipn, <- subscribed_app, firstn_skipn.
  split; [reflexivity|]. split; [reflexivity|]. split; [reflexivity|].
  unfold acts, invoke_calls. simpl. intuition discriminate.
Qed.

(** C5 (as stated, refuted): [invoke] checks neither condition: the front
    of an empty transactions vector is read (undefined behaviour), and a
    target node count of 0 still reaches [prot.start]. *)
Lemma invoke_does_not_validate :
  invoke_setup [] 1%N initial_state = None /\
  exists s, invoke_setup ["tx"%string] 0%N initial_state = Some s /\ In start (calls s).
Proof.
  split; [reflexivity|]. eexists. split; [reflexivity|]. simpl. right. left. reflexivity.
Qed.

(** C5 (amended): [invoke] reads [transactions.front()] unconditionally,
    which is undefined for an empty vector, and for any non-empty vector
    and any target node count (0 included) goes on to [set_max_outbound]
    and [start] with no check. *)
Theorem invoke_setup_unchecked :
  (forall (node_count : size_t) (s : state), invoke_setup [] node_count s = None) /\
  (forall (tx : transaction_type) (rest : list transaction_type)
          (node_count : size_t) (s : state),
      exists s', invoke_setup (tx :: rest) node_count s = Some s' /\
      calls s' = calls s ++ [set_max_outbound (size_t_mul node_count 6%N); start;
                              subscribe_channel tx; install_signal SIGABRT;
                              install_signal SIGTERM; install_signal SIGINT]).
Proof.
  split; [reflexivity|].
  intros tx rest node_count s. eexists. split; [reflexivity|].
  apply (exec_components (invoke_calls tx node_count) s).
Qed.

(** C6 (as stated, refuted): the cap is computed in [size_t]; for a large
    target it wraps (here to 2) instead of being the exact product. *)
Lemma max_outbound_wraps :
  exists s, invoke_setup ["tx"%string] 3074457345618258603%N initial_state = Some s /\
  hd_error (calls s) = Some (set_max_outbound 2%N) /\
  (2 <> 3074457345618258603 * 6)%N.
Proof.
  eexists. split; [reflexivity|]. split; [vm_compute; reflexivity | discriminate].
Qed.

(** C6 (amended): before [start], [invoke] sets the cap to [node_count * 6]
    in [size_t] arithmetic (modulo 2^64): the exact product whenever
    [node_count <= 3074457345618258602], the largest value whose product
    by 6 fits. *)
Theorem max_outbound_is_six_times (tx : transaction_type)
    (rest : list transaction_type) (node_count : size_t) :
  (exists s, invoke_setup (tx :: rest) node_count initial_state = Some s /\
             firstn 2 (calls s) = [set_max_outbound (size_t_mul node_count 6%N); start]) /\
  ((node_count <= 3074457345618258602)%N -> size_t_mul node_count 6%N = (node_count * 6)%N).
Proof.
  split.
  - eexists. split; [reflexivity|]. reflexivity.
  - intros H. unfold size_t_mul, size_t_modulus.
    apply N.mod_small. change (2 ^ 64)%N with 18446744073709551616%N. lia.
Qed.

Lemma max_outbound_is_six_times_witness :
  size_t_mul 3%N 6%N = 18%N.
Proof.
  apply (proj2 (max_outbound_is_six_times "tx"%string [] 3%N)). lia.
Defined.

(** C10 (code defect): with an error-log path, [log_error()] is bound to
    [output_cerr_and_file] on the error file, but that function writes the
    line to [std::cerr] only: the error file stays empty. *)
Theorem error_log_not_written_to_file :
  let c := bind_logging "" "error.log" default_config in
  error_out c = cerr_and_file_sink "error.log" /\
  fatal_out c = cerr_and_file_sink "error.log" /\
  exists w, emit c error "" "boom" empty_world = Some w /\
            file_contents w "error.log" = "" /\
            cerr w = ("ERROR: boom" ++ endl)%string.
Proof.
  split; [reflexivity|]. split; [reflexivity|].
  eexists. split; [reflexivity|]. split; reflexivity.
Qed.

(* ------------------------------------------------------------------ *)
(** ** Further properties of the code *)

Lemma sends_of_app (a b : list action) :
  sends_of (a ++ b) = sends_of a ++ sends_of b.
Proof. unfold sends_of. apply filter_app. Qed.

(** With no subscription armed, a channel delivery changes nothing but
    the (already empty) subscription list. *)
Lemma deliver_none (err : error_code) (node : channel_ptr) (s : state) :
  pending s = [] -> deliver_channel err node s = s.
Proof. intros Hp. unfold deliver_channel. rewrite Hp. destruct s; simpl in *; now subst. Qed.

(** Events other than channel deliveries never arm a subscription and never
    send. *)
Lemma step_no_channel (node_count : size_t) (s : state) (e : event) :
  (forall err node, e <> ev_channel err node) ->
  pending (step node_count s e) = pending s /\
  sends_of (calls (step node_count s e)) = sends_of (calls s).
Proof.
  intros He. destruct e as [sig|err|err node|err|err c|err|]; simpl.
  - split; reflexivity.
  - destruct err; split; reflexivity.
  - exfalso. exact (He err node eq_refl).
  - destruct err; split; reflexivity.
  - unfold check_connection_count.
    destruct err, (N.leb node_count c); split; reflexivity.
  - split; reflexivity.
  - unfold work, call. simpl. split; [reflexivity|].
    rewrite sends_of_app, app_nil_r. reflexivity.
Qed.

Lemma step_disarmed (node_count : size_t) (s : state) (e : event) :
  pending s = [] ->
  pending (step node_count s e) = [] /\
  sends_of (calls (step node_count s e)) = sends_of (calls s).
Proof.
  intros Hp. destruct e as [sig|err|err node|err|err c|err|];
    try (rewrite <- Hp; apply step_no_channel; discriminate).
  simpl. rewrite deliver_none by exact Hp. split; [exact Hp | reflexivity].
Qed.

Lemma run_disarmed (node_count : size_t) (es : list event) (s : state) :
  pending s = [] ->
  pending (run node_count es s) = [] /\
  sends_of (calls (run node_count es s)) = sends_of (calls s).
Proof.
  unfold run. revert s. induction es as [|e es IH]; intros s Hp; simpl.
  - split; [exact Hp | reflexivity].
  - destruct (step_disarmed node_count s e Hp) as (H1 & H2).
    destruct (IH _ H1) as (G1 & G2). split; [exact G1|]. now rewrite G2, H2.
Qed.

(** A channel-setup error with the subscription armed sets the Stop Flag,
    sends nothing and does not re-arm; from then on no event of any kind
    ever sends again, so every later channel goes unserviced. *)
Theorem channel_error_ends_broadcast (node_count : size_t) (tx : transaction_type)
    (m : string) (node : channel_ptr) (s : state) (es : list event) :
  pending s = [tx] ->
  let s1 := step node_count s (ev_channel (Some m) node) in
  stopped s1 = true /\ calls s1 = calls s /\ pending s1 = [] /\
  pending (run node_count es s1) = [] /\
  sends_of (calls (run node_count es s1)) = sends_of (calls s).
Proof.
  intros Hp s1.
  assert (E : s1 = mk_state true (calls s) [] (logs s ++ [(warning, setup_failed m)]) (outs s))
    by (unfold s1; simpl; unfold deliver_channel; rewrite Hp; reflexivity).
  rewrite E. split; [reflexivity|]. split; [reflexivity|]. split; [reflexivity|].
  exact (run_disarmed node_count es
           (mk_state true (calls s) [] (logs s ++ [(warning, setup_failed m)]) (outs s)) eq_refl).
Qed.

Lemma channel_error_ends_broadcast_witness :
  let s := exec (invoke_calls "tx" 2%N) initial_state in
  pending s = ["tx"%string] /\
  sends_of (calls (run 2%N [ev_channel None 4; ev_work; ev_channel None 5]
                     (step 2%N s (ev_channel (Some "handshake"%string) 3)))) = [].
Proof.
  intros s. split; [reflexivity|].
  exact (proj2 (proj2 (proj2 (proj2 (channel_error_ends_broadcast 2%N "tx" "handshake" 3 s
            [ev_channel None 4; ev_work; ev_channel None 5] eq_refl))))).
Defined.

(* ------------------------------------------------------------------ *)
(** ** The transaction's lifetime *)

Lemma bfold_undefined (err : error_code) (node : channel_ptr)
    (l : list bound_tx) (bs : bstate) :
  undefined bs = true ->
  fold_left (fun bs b => bsend_tx err node b bs) l bs = bs.
Proof.
  revert bs. induction l as [|b l IH]; intros bs H; simpl; [reflexivity|].
  unfold bsend_tx at 2. rewrite H. exact (IH bs H).
Qed.

Lemma bfold_agrees (err : error_code) (node : channel_ptr)
    (l : list bound_tx) (bs : bstate) :
  undefined bs = false ->
  pending (core bs) = map bound_value (armed bs) ->
  undefined (fold_left (fun bs b => bsend_tx err node b bs) l bs) = false ->
  core (fold_left (fun bs b => bsend_tx err node b bs) l bs)
  = fold_left (fun s tx => send_tx err node tx s) (map bound_value l) (core bs) /\
  pending (core (fold_left (fun bs b => bsend_tx err node b bs) l bs))
  = map bound_value (armed (fold_left (fun bs b => bsend_tx err node b bs) l bs)).
Proof.
  revert bs. induction l as [|b l IH]; intros bs Hu Hp Hr; simpl in *.
  - split; [reflexivity | exact Hp].
  - destruct (undefined (bsend_tx err node b bs)) eqn:Hb.
    + rewrite bfold_undefined in Hr by exact Hb. congruence.
    + assert (Hp1 : pending (core (bsend_tx err node b bs))
                    = map bound_value (armed (bsend_tx err node b bs))
              /\ core (bsend_tx err node b bs) = send_tx err node (bound_value b) (core bs)).
      { unfold bsend_tx in *. rewrite Hu in *.
        destruct err as [m|], b as [tx|tx]; simpl in *; try discriminate;
          try (split; [exact Hp | reflexivity]).
        split; [|reflexivity]. rewrite Hp, map_app. reflexivity. }
      destruct Hp1 as (Hp1 & Hc1).
      destruct (IH _ Hb Hp1 Hr) as (G1 & G2).
      split; [rewrite G1, Hc1; reflexivity | exact G2].
Qed.

(** Until the program first reads a destroyed transaction, the model that
    tracks how subscriptions hold the transaction and [Sendtx] agree on
    every event: same state, and [Sendtx]'s armed transactions are the
    values [Binding] holds. *)
Lemma bstep_agrees (node_count : size_t) (bs : bstate) (e : event) :
  undefined bs = false ->
  pending (core bs) = map bound_value (armed bs) ->
  undefined (bstep node_count bs e) = false ->
  core (bstep node_count bs e) = step node_count (core bs) e /\
  pending (core (bstep node_count bs e)) = map bound_value (armed (bstep node_count bs e)).
Proof.
  intros Hu Hp Hr. unfold bstep in *. rewrite Hu in *.
  destruct e as [sig|err|err node|err|err c|err|]; simpl in Hr |- *.
  - split; [reflexivity|]. exact Hp.
  - split; [reflexivity|]. destruct err; exact Hp.
  - unfold bdeliver_channel in *.
    destruct (bfold_agrees err node (armed bs)
                (mk_bstate (mk_state (stopped (core bs)) (calls (core bs)) []
                                     (logs (core bs)) (outs (core bs)))
                           [] (undefined bs)) Hu eq_refl Hr) as (G1 & G2).
    split; [|exact G2]. rewrite G1. simpl. unfold deliver_channel. rewrite Hp.
    reflexivity.
  - split; [reflexivity|]. destruct err; exact Hp.
  - split; [reflexivity|]. unfold check_connection_count.
    destruct err, (N.leb node_count c); exact Hp.
  - split; [reflexivity | exact Hp].
  - split; [reflexivity | exact Hp].
Qed.

Lemma brun_undefined (node_count : size_t) (es : list event) (bs : bstate) :
  undefined bs = true -> brun node_count es bs = bs.
Proof.
  unfold brun. revert bs. induction es as [|e es IH]; intros bs H; simpl; [reflexivity|].
  unfold bstep at 2. rewrite H. exact (IH bs H).
Qed.

(** The same over a whole run: every run of [Sendtx] that reads no
    destroyed transaction is the run of the program. *)
Lemma brun_agrees (node_count : size_t) (es : list event) (bs : bstate) :
  undefined bs = false ->
  pending (core bs) = map bound_value (armed bs) ->
  undefined (brun node_count es bs) = false ->
  core (brun node_count es bs) = run node_count es (core bs).
Proof.
  unfold brun, run. revert bs. induction es as [|e es IH]; intros bs Hu Hp Hr; simpl in *.
  - reflexivity.
  - destruct (undefined (bstep node_count bs e)) eqn:He.
    + pose proof (brun_undefined node_count es _ He) as E. unfold brun in E.
      rewrite E in Hr. congruence.
    + destruct (bstep_agrees node_count bs e Hu Hp He) as (H1 & H2).
      rewrite (IH _ He H2 Hr), H1. reflexivity.
Qed.

(** C1 (code defect): after [invoke]'s setup the first channel is sent the
    transaction and the subscription is re-armed, but the re-armed handler
    holds [std::ref(tx)] to the copy inside the handler that has just run
    and been destroyed: the second channel's handler reads a destroyed
    transaction (undefined behaviour) before any second send. *)
Theorem second_channel_reads_destroyed_tx (tx : transaction_type)
    (node_count : size_t) (node1 node2 : channel_ptr) :
  let bs1 := bstep node_count (binvoke_setup tx node_count) (ev_channel None node1) in
  let bs2 := bstep node_count bs1 (ev_channel None node2) in
  undefined bs1 = false /\
  sends_of (calls (core bs1)) = [send node1 tx] /\
  armed bs1 = [borrowed tx] /\
  undefined bs2 = true /\
  sends_of (calls (core bs2)) = [send node1 tx].
Proof.
  repeat split; reflexivity.
Qed.
